(** * CloudVote: the vote-ingestion and live-aggregation handlers of
    [src/app/server.js], embedded as functions over an explicit world
    (store, issued queries, console) in a small exception-and-state monad. *)

From Stdlib Require Import ZArith String Ascii List Floats.
From stdpp Require Import base gmap strings list sorting.

Set Warnings "-register-all".

Open Scope Z_scope.
Open Scope string_scope.

(** ** JavaScript values reaching the handlers *)

(** What [req.body.candidate] can hold once [express.json()] or
    [express.urlencoded({extended: true})] has parsed the body: a missing field
    reads as [undefined]. *)
Inductive JsValue : Type :=
| JUndefined
| JNull
| JBool (b : bool)
| JNum (f : float)
| JStr (s : string)
| JArr (items : list JsValue)
| JObj (fields : list (string * JsValue)).

(** SameValueZero, the comparison of [Array.prototype.includes].  Arrays and
    objects compare by reference; a value parsed out of a request is never the
    reference of another value, so the comparison is [false] for them. *)
Definition same_value_zero (x y : JsValue) : bool :=
  match x, y with
  | JUndefined, JUndefined => true
  | JNull, JNull => true
  | JBool a, JBool b => Bool.eqb a b
  | JNum a, JNum b => (PrimFloat.eqb a b || (PrimFloat.is_nan a && PrimFloat.is_nan b))%bool
  | JStr a, JStr b => String.eqb a b
  | _, _ => false
  end.

(** [xs.includes(v)] *)
Definition includes (xs : list JsValue) (v : JsValue) : bool :=
  existsb (fun x => same_value_zero x v) xs.

(** [a || b] on two values that are a string or [undefined] ([None]): the empty
    string is falsy, like [undefined]. *)
Definition js_or (a b : option string) : option string :=
  match a with
  | Some s => if String.eqb s "" then b else Some s
  | None => b
  end.

(** [String.prototype.toUpperCase] on the ASCII letters.  The handler calls it
    on a candidate that passed validation, which is all lower-case ASCII. *)
Definition upper_ascii (c : ascii) : ascii :=
  let n := N_of_ascii c in
  if ((97 <=? n) && (n <=? 122))%N then ascii_of_N (n - 32) else c.

Fixpoint toUpperCase (s : string) : string :=
  match s with
  | EmptyString => EmptyString
  | String c rest => String (upper_ascii c) (toUpperCase rest)
  end.

(** [s.split(',')[0]]: the text before the first comma (all of [s] when it has
    none; the empty string when [s] starts with one). *)
Fixpoint split_comma_head (s : string) : string :=
  match s with
  | EmptyString => EmptyString
  | String c rest =>
      if Ascii.eqb c "," then EmptyString else String c (split_comma_head rest)
  end.

(** ** Requests and rows *)

(** The parts of an incoming request the handlers read:
    [req.body.candidate], [req.headers['x-forwarded-for']] and
    [req.socket.remoteAddress] ([None] is [undefined]). *)
Record Request : Type := mkRequest {
  body_candidate : JsValue;
  x_forwarded_for : option string;
  remoteAddress : option string
}.

Module Log.
(** A row of [system_logs]: the columns the program writes
    ([event_type], [message], [pod_id]), orders by ([id]) and displays
    ([created_at]). *)
Record row : Type := mk {
  id : Z;
  event_type : string;
  message : string;
  pod_id : string;
  created_at : Z
}.
End Log.

Module Tally.
(** A row of the grouped count: [r.candidate], [r.count]. *)
Record row : Type := mk {
  candidate : string;
  count : Z
}.
End Tally.

(** ** The store behind the pool *)

Record Query : Type := mkQuery {
  sql : string;
  params : list JsValue
}.

Definition SQL_TALLY : string :=
  "SELECT candidate, COUNT(*) as count FROM votes GROUP BY candidate".
Definition SQL_TAIL : string :=
  "SELECT * FROM system_logs ORDER BY id DESC LIMIT 50".
Definition SQL_INSERT_VOTE : string :=
  "INSERT INTO votes (candidate) VALUES (?)".
Definition SQL_INSERT_LOG : string :=
  "INSERT INTO system_logs (event_type, message, pod_id) VALUES (?, ?, ?)".

(** The error object the driver hands to the callback. *)
Inductive DbError : Type := MkDbError (errcode : string).

(** What the driver resolves a query with. *)
Inductive QueryResult : Type :=
| TallyRows (rows : list Tally.row)
| LogRows (rows : list Log.row)
| ResultSetHeader (insertId : Z).

(** The JSON bodies the handlers send. *)
Inductive Body : Type :=
| BStatus (status : string) (message : option string)
    (* { status, message } and { status } *)
| BError (error : string)
    (* { error } *)
| BLive (pod_id : string) (health : string)
        (votes : gmap string Z) (logs : QueryResult).
    (* { meta: { pod_id, status }, data: { votes, logs } } *)

Record Response : Type := mkResponse {
  status : Z;
  body : Body
}.

(** Modelled from the spec: the relational store (its schema and engine) is an
    external collaborator and not part of the source.  [votes] holds the
    [candidate] column of the vote rows, oldest first (the program reads no
    other column); [system_logs] holds the audit rows; [now] is the store's
    clock, which stamps [created_at] ("store-assigned timestamp"). *)
Record Store : Type := mkStore {
  votes : list string;
  system_logs : list Log.row;
  now : Z
}.

(** [GROUP BY candidate] with [COUNT( * )]: one row per distinct candidate, in
    no order the program relies on. *)
Definition group_count (cs : list string) : list Tally.row :=
  (fun c => Tally.mk c (Z.of_nat (length (filter (fun x => x = c) cs))))
    <$> remove_dups cs.

(** [ORDER BY id DESC]: a row goes before the rows whose id is not larger. *)
Definition id_desc (a b : Log.row) : Prop := Log.id b <= Log.id a.

#[global] Instance id_desc_dec : RelDecision id_desc :=
  fun a b => decide (Log.id b <= Log.id a).

(** Most recent first: no row has a later timestamp than a row before it. *)
Definition created_at_desc (a b : Log.row) : Prop :=
  Log.created_at b <= Log.created_at a.

(** [ORDER BY id DESC LIMIT 50] *)
Definition TAIL_LIMIT : nat := 50.

Definition tail (logs : list Log.row) : list Log.row :=
  take TAIL_LIMIT (merge_sort id_desc logs).

(** The auto-increment key of the next audit row. *)
Definition next_log_id (logs : list Log.row) : Z :=
  Z.succ (foldr Z.max 0 (map Log.id logs)).

(** Modelled from the spec: what the store does with each statement the program
    sends, once it accepts it.  A statement it does not know, or one with
    parameters of another shape, is refused. *)
Definition exec (q : Query) (s : Store) : DbError + QueryResult * Store :=
  if String.eqb (sql q) SQL_TALLY then
    inr (TallyRows (group_count (votes s)), s)
  else if String.eqb (sql q) SQL_TAIL then
    inr (LogRows (tail (system_logs s)), s)
  else if String.eqb (sql q) SQL_INSERT_VOTE then
    match params q with
    | [JStr c] =>
        inr (ResultSetHeader (Z.of_nat (S (length (votes s)))),
             mkStore (votes s ++ [c]) (system_logs s) (now s))
    | _ => inl (MkDbError "ER_WRONG_ARGUMENTS")
    end
  else if String.eqb (sql q) SQL_INSERT_LOG then
    match params q with
    | [JStr ev; JStr msg; JStr pod] =>
        let i := next_log_id (system_logs s) in
        inr (ResultSetHeader i,
             mkStore (votes s)
                     (system_logs s ++ [Log.mk i ev msg pod (now s)])
                     (now s))
    | _ => inl (MkDbError "ER_WRONG_ARGUMENTS")
    end
  else inl (MkDbError "ER_PARSE_ERROR").

(** ** The process: world, exceptions, promises *)

(** What a handler can throw or a promise can reject with. *)
Inductive JsError : Type :=
| ErrDb (e : DbError)
| TypeError (msg : string).

(** One call of [console.error] with its arguments. *)
Inductive ConsoleArg : Type :=
| CStr (s : string)
| CErr (e : JsError).

(** How the [n]-th round trip to the store ends: with a fault (pool
    exhaustion, store unreachable, ...) or not, and after how long. *)
Record Outcome : Type := mkOutcome {
  fault : option DbError;
  latency : nat
}.

(** The state a request runs in.  [issued] lists every statement handed to
    [pool.query], oldest first; [console] every [console.error] call;
    [oracle n] fixes the outcome of the [n]-th statement issued by the process. *)
Record World : Type := mkWorld {
  store : Store;
  issued : list Query;
  console : list (list ConsoleArg);
  oracle : nat -> Outcome
}.

(** A computation that may throw. *)
Definition M (A : Type) : Type := World -> (JsError + A) * World.

Definition ret {A} (a : A) : M A := fun w => (inr a, w).

Definition throw {A} (e : JsError) : M A := fun w => (inl e, w).

Definition bind {A B} (m : M A) (k : A -> M B) : M B := fun w =>
  match m w with
  | (inl e, w') => (inl e, w')
  | (inr a, w') => k a w'
  end.

(** [try { body } catch (err) { handler }] *)
Definition try_catch {A} (body : M A) (handler : JsError -> M A) : M A := fun w =>
  match body w with
  | (inl e, w') => handler e w'
  | (inr a, w') => (inr a, w')
  end.

Notation "'let*' x ':=' m 'in' k" := (bind m (fun x => k))
  (at level 10, x pattern, m at level 100, k at level 200).

(** A promise, seen once it has settled: rejected or resolved, and when. *)
Record Promise (A : Type) : Type := mkPromise {
  settled : JsError + A;
  settled_at : nat
}.
Arguments mkPromise {A} _ _.
Arguments settled {A} _.
Arguments settled_at {A} _.

(** [await p] *)
Definition await {A} (p : Promise A) : M A :=
  match settled p with
  | inl e => throw e
  | inr a => ret a
  end.

(** [Promise.all([p1, p2])]: resolves with both results once both have resolved,
    rejects with the reason of the rejection that comes first. *)
Definition Promise_all {A B} (p1 : Promise A) (p2 : Promise B) : Promise (A * B) :=
  match settled p1, settled p2 with
  | inr a, inr b => mkPromise (inr (a, b)) (settled_at p1 `max` settled_at p2)
  | inl e, inr _ => mkPromise (inl e) (settled_at p1)
  | inr _, inl e => mkPromise (inl e) (settled_at p2)
  | inl e1, inl e2 =>
      if (settled_at p2 <? settled_at p1)%nat
      then mkPromise (inl e2) (settled_at p2)
      else mkPromise (inl e1) (settled_at p1)
  end.

(** [console.error(...args)] *)
Definition console_error (args : list ConsoleArg) : M unit := fun w =>
  (inr tt, mkWorld (store w) (issued w) (console w ++ [args]) (oracle w)).

(** [p.catch(console.error)], the promise it returns being dropped: a rejection
    of [p] is handed to [console.error] and goes nowhere else. *)
Definition catch_console_error {A} (p : Promise A) : M unit :=
  match settled p with
  | inl e => console_error [CErr e]
  | inr _ => ret tt
  end.

(** The [query] helper: hands the statement and its parameters to [pool.query]
    and returns the promise that the callback rejects with [err] or resolves
    with [results].  The statement is issued at once; a statement that fails
    leaves the store as it was. *)
Definition query (statement : string) (parameters : list JsValue)
  : M (Promise QueryResult) := fun w =>
  let q := mkQuery statement parameters in
  let o := oracle w (length (issued w)) in
  match fault o with
  | Some e =>
      (inr (mkPromise (inl (ErrDb e)) (latency o)),
       mkWorld (store w) (issued w ++ [q]) (console w) (oracle w))
  | None =>
      match exec q (store w) with
      | inl e =>
          (inr (mkPromise (inl (ErrDb e)) (latency o)),
           mkWorld (store w) (issued w ++ [q]) (console w) (oracle w))
      | inr (results, s') =>
          (inr (mkPromise (inr results) (latency o)),
           mkWorld s' (issued w ++ [q]) (console w) (oracle w))
      end
  end.

(** ** The votes object of the live-data payload *)

(** [{ aws: 0, azure: 0, total: 0 }] *)
Definition votes_init : gmap string Z :=
  <["aws" := 0]> (<["azure" := 0]> (<["total" := 0]> ∅)).

(** [{ aws: a, azure: b, total: t }] *)
Definition votes_obj (a b t : Z) : gmap string Z :=
  <["aws" := a]> (<["azure" := b]> (<["total" := t]> ∅)).

(** [votes[k] = v]: an own property is written, except under the key
    [__proto__], where assigning a number changes nothing. *)
Definition obj_set (k : string) (v : Z) (o : gmap string Z) : gmap string Z :=
  if String.eqb k "__proto__" then o else <[k := v]> o.

(** [voteResults.forEach(r => votes[r.candidate] = r.count)] *)
Definition record_rows (rows : list Tally.row) (o : gmap string Z) : gmap string Z :=
  foldl (fun acc r => obj_set (Tally.candidate r) (Tally.count r) acc) o rows.

(** [voteResults.forEach(...)] on what the driver resolved the tally statement
    with.  The store answers that statement with grouped rows; a result that is
    no array has no [forEach]. *)
Definition forEach_record (voteResults : QueryResult) (o : gmap string Z)
  : M (gmap string Z) :=
  match voteResults with
  | TallyRows rows => ret (record_rows rows o)
  | LogRows _ | ResultSetHeader _ =>
      throw (TypeError "voteResults.forEach is not a function")
  end.

(** [votes.total = votes.aws + votes.azure] *)
Definition set_total (o : gmap string Z) : gmap string Z :=
  <["total" := (o !!! "aws") + (o !!! "azure")]> o.

(** The sum of the counts of every candidate of a votes object: of every
    property but [total]. *)
Definition candidate_sum (o : gmap string Z) : Z :=
  map_fold (fun _ v acc => v + acc) 0 (delete "total" o).

(** ** The handlers *)

Section Handlers.

(** [process.env.HOSTNAME || os.hostname()] *)
Variable POD_ID : string.

(** [app.get('/api/live-data', ...)].  Both statements are handed to the pool
    before either is awaited; they are passed without a parameter list, which
    the trace records as the empty list. *)
Definition liveData : M Response :=
  try_catch
    (let* pVotes := query SQL_TALLY [] in
     let* pLogs := query SQL_TAIL [] in
     let* (voteResults, logResults) := await (Promise_all pVotes pLogs) in
     let* votes := forEach_record voteResults votes_init in
     let votes := set_total votes in
     ret (mkResponse 200 (BLive POD_ID "healthy" votes logResults)))
    (fun err =>
       let* _ := console_error [CStr "DB Error:"; CErr err] in
       ret (mkResponse 500 (BError "Database connectivity interruption"))).

(** [candidate.toUpperCase()] *)
Definition call_toUpperCase (v : JsValue) : M string :=
  match v with
  | JStr s => ret (toUpperCase s)
  | _ => throw (TypeError "candidate.toUpperCase is not a function")
  end.

(** [clientIp.split(',')[0]] *)
Definition call_split_head (clientIp : option string) : M string :=
  match clientIp with
  | Some s => ret (split_comma_head s)
  | None => throw (TypeError "Cannot read properties of undefined (reading 'split')")
  end.

(** [app.post('/vote', ...)].  The audit insert is issued and not awaited: its
    round trip is accounted for in the world the handler leaves (the row, or
    the console line of a failure), never in the control flow that picks the
    response. *)
Definition castVote (req : Request) : M Response :=
  let candidate := body_candidate req in
  let clientIp := js_or (x_forwarded_for req) (remoteAddress req) in
  if negb (includes [JStr "aws"; JStr "azure"] candidate) then
    ret (mkResponse 400 (BStatus "error" (Some "Invalid candidate")))
  else
    try_catch
      (let* pVote := query SQL_INSERT_VOTE [candidate] in
       let* _ := await pVote in
       let* upper := call_toUpperCase candidate in
       let* origin := call_split_head clientIp in
       let logMsg := "Vote confirmed for " ++ upper ++ " via " ++ origin in
       let* pLog := query SQL_INSERT_LOG [JStr "VOTE_TX"; JStr logMsg; JStr POD_ID] in
       let* _ := catch_console_error pLog in
       ret (mkResponse 200 (BStatus "success" None)))
      (fun err =>
         let* _ := console_error [CStr "Transaction failed:"; CErr err] in
         ret (mkResponse 500 (BStatus "error" (Some "Transaction failed")))).

End Handlers.

(** ** Vocabulary of the statements *)

(** The fixed enumerated candidate set. *)
Definition valid_candidate (v : JsValue) : Prop :=
  v = JStr "aws" \/ v = JStr "azure".

(** The outcome the process will get for the next statement it issues, and for
    the one after it. *)
Definition next_outcome (w : World) : Outcome := oracle w (length (issued w)).
Definition second_outcome (w : World) : Outcome := oracle w (S (length (issued w))).

(** The world in which the [k]-th statement ends as [o]. *)
Definition with_outcome (k : nat) (o : Outcome) (w : World) : World :=
  mkWorld (store w) (issued w) (console w)
          (fun i => if (i =? k)%nat then o else oracle w i).

(** The statements issued between [w] and [w']. *)
Definition issued_since (w w' : World) : list Query :=
  drop (length (issued w)) (issued w').

(** Between [w] and [w'] the audit insert was issued and its round trip failed
    with [e]. *)
Definition audit_insert_failed (w w' : World) (e : DbError) : Prop :=
  exists n q, (length (issued w) <= n)%nat /\ issued w' !! n = Some q /\
              sql q = SQL_INSERT_LOG /\ fault (oracle w n) = Some e.

Definition RESP_INVALID : Response :=
  mkResponse 400 (BStatus "error" (Some "Invalid candidate")).
Definition RESP_SUCCESS : Response :=
  mkResponse 200 (BStatus "success" None).
Definition RESP_TX_FAILED : Response :=
  mkResponse 500 (BStatus "error" (Some "Transaction failed")).
Definition RESP_DB_ERROR : Response :=
  mkResponse 500 (BError "Database connectivity interruption").

(** [`Vote confirmed for ${candidate.toUpperCase()} via ${clientIp.split(',')[0]}`] *)
Definition audit_message (candidate clientIp : string) : string :=
  "Vote confirmed for " ++ toUpperCase candidate ++ " via " ++ split_comma_head clientIp.

(** ** Concrete requests and worlds *)

(** Every round trip succeeds. *)
Definition all_ok : nat -> Outcome := fun _ => mkOutcome None 1.

(** The [k]-th round trip fails with [e], every other one succeeds. *)
Definition fails_at (k : nat) (e : DbError) : nat -> Outcome :=
  fun i => if (i =? k)%nat then mkOutcome (Some e) 1 else mkOutcome None 1.

Definition ECONNREFUSED : DbError := MkDbError "ECONNREFUSED".

Definition world_empty : World :=
  mkWorld (mkStore [] [] 1700000000) [] [] all_ok.

Definition world_vote_fails : World :=
  mkWorld (mkStore [] [] 1700000000) [] [] (fails_at 0 ECONNREFUSED).

Definition world_audit_fails : World :=
  mkWorld (mkStore [] [] 1700000000) [] [] (fails_at 1 ECONNREFUSED).

(** A vote table with a row for a candidate outside the enumerated set. *)
Definition world_gcp : World :=
  mkWorld (mkStore ["aws"; "gcp"] [] 1700000000) [] [] all_ok.

Definition world_mixed : World :=
  mkWorld (mkStore ["aws"; "azure"; "aws"] [] 1700000000) [] [] all_ok.

(** An audit table whose later id carries the earlier timestamp. *)
Definition log_first : Log.row :=
  Log.mk 1 "VOTE_TX" "Vote confirmed for AWS via 10.0.0.7" "pod-1" 1700000020.
Definition log_second : Log.row :=
  Log.mk 2 "VOTE_TX" "Vote confirmed for AZURE via 10.0.0.8" "pod-0" 1700000010.

Definition world_skewed : World :=
  mkWorld (mkStore [] [log_first; log_second] 1700000030) [] [] all_ok.

(** An audit table whose timestamps grow with the id. *)
Definition log_third : Log.row :=
  Log.mk 3 "VOTE_TX" "Vote confirmed for AWS via 10.0.0.9" "pod-0" 1700000025.

Definition world_logged : World :=
  mkWorld (mkStore [] [log_second; log_third] 1700000030) [] [] all_ok.

Definition req_gcp : Request :=
  mkRequest (JStr "gcp") (Some "203.0.113.9") (Some "10.0.0.7").

Definition req_aws : Request :=
  mkRequest (JStr "aws") (Some "203.0.113.9, 10.0.0.1") (Some "10.0.0.7").

Definition req_aws_no_origin : Request :=
  mkRequest (JStr "aws") None None.

Definition req_aws_empty_header : Request :=
  mkRequest (JStr "aws") (Some "") None.

Definition req_azure_socket : Request :=
  mkRequest (JStr "azure") None (Some "::ffff:10.0.0.7").

(** ** A process serving requests, and the dashboard in front of it *)

(** The number of vote rows for a candidate. *)
Definition count_votes (c : string) (cs : list string) : Z :=
  Z.of_nat (length (filter (fun x => x = c) cs)).

(** The requests the two routes take. *)
Inductive Call : Type :=
| Vote (req : Request)      (* POST /vote *)
| LiveData.                 (* GET /api/live-data *)

Section Serving.

Variable POD_ID : string.

Definition handle (c : Call) : M Response :=
  match c with
  | Vote req => castVote POD_ID req
  | LiveData => liveData POD_ID
  end.

(** The process handling requests one after another; the answers come back in
    the order of the requests. *)
Fixpoint serve (calls : list Call) (w : World) : list (JsError + Response) * World :=
  match calls with
  | [] => ([], w)
  | c :: rest =>
      let (r, w1) := handle c w in
      let (rs, w2) := serve rest w1 in
      (r :: rs, w2)
  end.

End Serving.

(** The answer is the acknowledgement [{ status: 'success' }]. *)
Definition is_ack (r : JsError + Response) : bool :=
  match r with
  | inr (mkResponse st (BStatus s None)) => Z.eqb st 200 && String.eqb s "success"
  | _ => false
  end.

Definition acks (rs : list (JsError + Response)) : nat :=
  length (filter (fun r => is_ack r = true) rs).

(** [res.ok] of the fetch API: a status from 200 to 299. *)
Definition res_ok (r : Response) : bool :=
  Z.leb 200 (status r) && Z.leb (status r) 299.

(** The status line the dashboard's [castVote(candidate)] ends with, and
    whether it calls [refresh()], given what [fetch('/vote', ...)] delivered
    ([None]: the fetch was rejected).  The line is blanked two seconds after a
    success; that timer is left out. *)
Definition dashboard_status (fetched : option Response) : string * string * bool :=
  match fetched with
  | Some res =>
      if res_ok res
      then ("Transaction Committed", "var(--success)", true)
      else ("Connection Error", "var(--danger)", false)
  | None => ("Connection Error", "var(--danger)", false)
  end.

(** A click on a vote button: the dashboard posts
    [JSON.stringify({ candidate })], the server parses it back to the string
    and runs the vote handler, the dashboard shows the outcome. *)
Definition button_vote (POD_ID candidate : string)
    (forwarded remote : option string) (w : World) : string * string * bool * World :=
  let (r, w') := castVote POD_ID (mkRequest (JStr candidate) forwarded remote) w in
  (dashboard_status (match r with inr res => Some res | inl _ => None end), w').

(** A short session: two votes with an origin, a snapshot, a rejected vote and
    a vote without origin. *)
Definition sample_calls : list Call :=
  [Vote req_aws; LiveData; Vote req_gcp; Vote req_azure_socket; Vote req_aws_no_origin].

(** The audit row of [req_aws] in an empty audit table. *)
Definition log_req_aws : Log.row :=
  Log.mk 1 "VOTE_TX" "Vote confirmed for AWS via 203.0.113.9" "pod-0" 1700000000.

(** ** Basic facts *)

Example includes_string : includes [JStr "aws"; JStr "azure"] (JStr "azure") = true.
Proof. reflexivity. Qed.

Example includes_array : includes [JStr "aws"; JStr "azure"] (JArr [JStr "aws"]) = false.
Proof. reflexivity. Qed.

Example includes_undefined : includes [JStr "aws"; JStr "azure"] JUndefined = false.
Proof. reflexivity. Qed.

Example toUpperCase_azure : toUpperCase "azure" = "AZURE".
Proof. reflexivity. Qed.

Example split_comma_head_chain : split_comma_head "203.0.113.9, 10.0.0.1" = "203.0.113.9".
Proof. reflexivity. Qed.

Example split_comma_head_plain : split_comma_head "::1" = "::1".
Proof. reflexivity. Qed.

Example js_or_empty_header : js_or (Some "") (Some "10.0.0.7") = Some "10.0.0.7".
Proof. reflexivity. Qed.

Example group_count_sample :
  group_count ["aws"; "azure"; "aws"] = [Tally.mk "azure" 1; Tally.mk "aws" 2].
Proof. reflexivity. Qed.

Example tail_sample : tail [log_first; log_second] = [log_second; log_first].
Proof. reflexivity. Qed.

Lemma includes_valid v :
  includes [JStr "aws"; JStr "azure"] v = true <-> valid_candidate v.
Proof.
  unfold includes, valid_candidate. split.
  - destruct v; cbn [existsb same_value_zero]; try discriminate.
    rewrite !orb_true_iff, !String.eqb_eq.
    intros [E|[E|E]]; [left | right | discriminate E]; congruence.
  - intros [->| ->]; reflexivity.
Qed.

Lemma includes_invalid v :
  ~ valid_candidate v -> includes [JStr "aws"; JStr "azure"] v = false.
Proof.
  intros H. destruct (includes _ v) eqn:E; [|reflexivity].
  apply includes_valid in E. contradiction.
Qed.

Lemma exec_insert_vote c s :
  exec (mkQuery SQL_INSERT_VOTE [JStr c]) s =
  inr (ResultSetHeader (Z.of_nat (S (length (votes s)))),
       mkStore (votes s ++ [c]) (system_logs s) (now s)).
Proof. reflexivity. Qed.

Lemma exec_insert_log ev msg pod s :
  exec (mkQuery SQL_INSERT_LOG [JStr ev; JStr msg; JStr pod]) s =
  inr (ResultSetHeader (next_log_id (system_logs s)),
       mkStore (votes s)
               (system_logs s ++ [Log.mk (next_log_id (system_logs s)) ev msg pod (now s)])
               (now s)).
Proof. reflexivity. Qed.

Lemma exec_tally s :
  exec (mkQuery SQL_TALLY []) s = inr (TallyRows (group_count (votes s)), s).
Proof. reflexivity. Qed.

Lemma exec_tail s :
  exec (mkQuery SQL_TAIL []) s = inr (LogRows (tail (system_logs s)), s).
Proof. reflexivity. Qed.

#[global] Opaque exec.

(** ** The write path *)

Section WritePath.

Variable POD_ID : string.

(** The three ways a validated vote can go. *)
Lemma castVote_valid_cases c req w :
  body_candidate req = JStr c ->
  valid_candidate (JStr c) ->
  castVote POD_ID req w =
  match fault (next_outcome w) with
  | Some e =>
      (inr RESP_TX_FAILED,
       mkWorld (store w)
               (issued w ++ [mkQuery SQL_INSERT_VOTE [JStr c]])
               (console w ++ [[CStr "Transaction failed:"; CErr (ErrDb e)]])
               (oracle w))
  | None =>
      let s1 := mkStore (votes (store w) ++ [c]) (system_logs (store w)) (now (store w)) in
      match js_or (x_forwarded_for req) (remoteAddress req) with
      | None =>
          (inr RESP_TX_FAILED,
           mkWorld s1
                   (issued w ++ [mkQuery SQL_INSERT_VOTE [JStr c]])
                   (console w ++
                      [[CStr "Transaction failed:";
                        CErr (TypeError "Cannot read properties of undefined (reading 'split')")]])
                   (oracle w))
      | Some ip =>
          let qs := (issued w ++ [mkQuery SQL_INSERT_VOTE [JStr c]])%list in
          let qLog := mkQuery SQL_INSERT_LOG
                              [JStr "VOTE_TX"; JStr (audit_message c ip); JStr POD_ID] in
          match fault (second_outcome w) with
          | Some e =>
              (inr RESP_SUCCESS,
               mkWorld s1 (qs ++ [qLog]) (console w ++ [[CErr (ErrDb e)]]) (oracle w))
          | None =>
              (inr RESP_SUCCESS,
               mkWorld (mkStore (votes s1)
                          (system_logs s1 ++
                             [Log.mk (next_log_id (system_logs s1)) "VOTE_TX"
                                     (audit_message c ip) POD_ID (now s1)])
                          (now s1))
                       (qs ++ [qLog]) (console w) (oracle w))
          end
      end
  end.
Proof.
  intros Hc Hv. unfold castVote. rewrite Hc.
  apply includes_valid in Hv. rewrite Hv. cbn [negb].
  unfold try_catch, bind, query, next_outcome. cbn [store issued console oracle].
  destruct (fault (oracle w (length (issued w)))) as [e|] eqn:E1.
  - reflexivity.
  - rewrite exec_insert_vote. cbn.
    destruct (js_or (x_forwarded_for req) (remoteAddress req)) as [ip|]; cbn.
    + rewrite length_app, Nat.add_1_r. unfold second_outcome.
      destruct (fault (oracle w (S (length (issued w))))) as [e|] eqn:E2.
      * reflexivity.
      * rewrite exec_insert_log. reflexivity.
    + reflexivity.
Qed.

Lemma castVote_rejects req w :
  ~ valid_candidate (body_candidate req) ->
  castVote POD_ID req w = (inr RESP_INVALID, w).
Proof.
  intros H. unfold castVote. rewrite (includes_invalid _ H). reflexivity.
Qed.

Lemma valid_candidate_string v :
  valid_candidate v -> exists c, v = JStr c /\ valid_candidate (JStr c).
Proof. intros H. pose proof H as [-> | ->]; eauto. Qed.

Lemma issued_since_refl w : issued_since w w = [].
Proof. unfold issued_since. apply drop_all. Qed.

Lemma issued_since_app w w' qs :
  issued w' = (issued w ++ qs)%list -> issued_since w w' = qs.
Proof. intros E. unfold issued_since. rewrite E. apply drop_app_length. Qed.

(** The handler always answers: no exception escapes it. *)
Lemma castVote_responds req w : exists r, fst (castVote POD_ID req w) = inr r.
Proof.
  destruct (includes [JStr "aws"; JStr "azure"] (body_candidate req)) eqn:E.
  - apply includes_valid in E. destruct (valid_candidate_string _ E) as (c & Hc & Hv).
    rewrite (castVote_valid_cases c req w Hc Hv).
    destruct (fault (next_outcome w)); [eauto|]. cbv zeta.
    destruct (js_or _ _); [|eauto].
    destruct (fault (second_outcome w)); eauto.
  - unfold castVote. rewrite E. cbn. eauto.
Qed.

(** C1. A write request whose candidate is not "aws" or "azure" is answered
    with status 400 and body {status: "error", message: "Invalid candidate"},
    and leaves the world as it was: no statement is issued, no vote row and
    no audit row is written, nothing is logged. *)
Theorem castVote_invalid_candidate req w :
  ~ valid_candidate (body_candidate req) ->
  castVote POD_ID req w =
    (inr (mkResponse 400 (BStatus "error" (Some "Invalid candidate"))), w)
  /\ issued_since w (snd (castVote POD_ID req w)) = []
  /\ store (snd (castVote POD_ID req w)) = store w.
Proof.
  intros H. rewrite (castVote_rejects req w H). cbn [snd].
  split; [reflexivity|]. split; [apply issued_since_refl | reflexivity].
Qed.

(** C3. When the vote insert of a valid request fails, the handler answers
    with status 500 and body {status: "error", message: "Transaction
    failed"}, logs the failure, and issues nothing but the vote insert: no
    audit insert is issued and the store is as it was. *)
Theorem castVote_persist_failure req w e :
  valid_candidate (body_candidate req) ->
  fault (next_outcome w) = Some e ->
  castVote POD_ID req w =
    (inr (mkResponse 500 (BStatus "error" (Some "Transaction failed"))),
     mkWorld (store w)
             (issued w ++ [mkQuery SQL_INSERT_VOTE [body_candidate req]])
             (console w ++ [[CStr "Transaction failed:"; CErr (ErrDb e)]])
             (oracle w))
  /\ Forall (fun q => sql q <> SQL_INSERT_LOG)
            (issued_since w (snd (castVote POD_ID req w))).
Proof.
  intros Hv Hf. destruct (valid_candidate_string _ Hv) as (c & Hc & Hv').
  rewrite (castVote_valid_cases c req w Hc Hv'), Hf, Hc. split; [reflexivity|].
  cbn [snd]. rewrite (issued_since_app w _ [mkQuery SQL_INSERT_VOTE [JStr c]]) by reflexivity.
  constructor; [discriminate | constructor].
Qed.

(** C10. A valid request with no x-forwarded-for header and no socket remote
    address, whose vote insert succeeds, leaves the vote row in the store,
    throws on [split] before any audit insert is issued, and is answered with
    status 500 and body {status: "error", message: "Transaction failed"}. *)
Theorem castVote_undefined_origin req w c :
  body_candidate req = JStr c ->
  valid_candidate (JStr c) ->
  x_forwarded_for req = None ->
  remoteAddress req = None ->
  fault (next_outcome w) = None ->
  castVote POD_ID req w =
    (inr (mkResponse 500 (BStatus "error" (Some "Transaction failed"))),
     mkWorld (mkStore (votes (store w) ++ [c]) (system_logs (store w)) (now (store w)))
             (issued w ++ [mkQuery SQL_INSERT_VOTE [JStr c]])
             (console w ++
                [[CStr "Transaction failed:";
                  CErr (TypeError "Cannot read properties of undefined (reading 'split')")]])
             (oracle w)).
Proof.
  intros Hc Hv Hh Ha Hf.
  rewrite (castVote_valid_cases c req w Hc Hv), Hf, Hh, Ha. reflexivity.
Qed.

Lemma next_outcome_with_outcome o w :
  next_outcome (with_outcome (S (length (issued w))) o w) = next_outcome w.
Proof.
  unfold next_outcome, with_outcome. cbn [oracle issued].
  destruct (Nat.eqb_spec (length (issued w)) (S (length (issued w)))); [lia | reflexivity].
Qed.

(** C2. For a valid request whose vote insert succeeds, the answer is the
    same whatever the outcome of the audit insert; and when the audit insert
    was issued and failed, the answer is status 200 with body
    {status: "success"} and the failure is on the console. *)
Theorem castVote_audit_outcome_ignored req w o :
  valid_candidate (body_candidate req) ->
  fault (next_outcome w) = None ->
  fst (castVote POD_ID req (with_outcome (S (length (issued w))) o w))
    = fst (castVote POD_ID req w)
  /\ forall e,
       audit_insert_failed w (snd (castVote POD_ID req w)) e ->
       fst (castVote POD_ID req w) = inr (mkResponse 200 (BStatus "success" None))
       /\ console (snd (castVote POD_ID req w)) = (console w ++ [[CErr (ErrDb e)]])%list.
Proof.
  intros Hv Hf. destruct (valid_candidate_string _ Hv) as (c & Hc & Hv').
  split.
  - rewrite !(castVote_valid_cases c req _ Hc Hv').
    rewrite next_outcome_with_outcome, Hf. cbv zeta.
    destruct (js_or _ _); [|reflexivity].
    destruct (fault (second_outcome _)), (fault (second_outcome w)); reflexivity.
  - intros e (n & q & Hn & Hq & Hsql & He). revert Hq He.
    rewrite (castVote_valid_cases c req w Hc Hv'), Hf. cbv zeta.
    destruct (js_or _ _) as [ip|].
    + unfold second_outcome.
      destruct (fault (oracle w (S (length (issued w))))) as [e'|] eqn:E2;
        cbn [fst snd issued console]; intros Hq He;
        rewrite <- app_assoc in Hq; rewrite lookup_app_r in Hq by exact Hn;
        (destruct (n - length (issued w))%nat as [|[|k]] eqn:En; cbn in Hq;
         [ injection Hq as <-; discriminate Hsql
         | replace n with (S (length (issued w))) in He by lia
         | discriminate Hq ]).
      * rewrite E2 in He. injection He as ->. split; reflexivity.
      * rewrite E2 in He. discriminate He.
    + cbn [fst snd issued console]. intros Hq He.
      rewrite lookup_app_r in Hq by exact Hn.
      destruct (n - length (issued w))%nat as [|k]; cbn in Hq;
        [injection Hq as <-; discriminate Hsql | discriminate Hq].
Qed.

(** C9. The query helper hands the statement text and the parameter list to
    the pool as they are, and every statement the write handler issues has
    one of two constant texts: user input (the candidate, the audit message
    built from candidate and origin) travels only in the parameter list. *)
Theorem castVote_statement_text_constant req w :
  (forall text ps w1, issued (snd (query text ps w1)) = (issued w1 ++ [mkQuery text ps])%list)
  /\ Forall (fun q =>
               (sql q = "INSERT INTO votes (candidate) VALUES (?)"
                /\ params q = [body_candidate req])
               \/ (sql q = "INSERT INTO system_logs (event_type, message, pod_id) VALUES (?, ?, ?)"
                   /\ exists msg, params q = [JStr "VOTE_TX"; JStr msg; JStr POD_ID]))
            (issued_since w (snd (castVote POD_ID req w))).
Proof.
  split.
  - intros text ps w1. unfold query.
    destruct (fault _); [reflexivity|]. destruct (exec _ _) as [?|[? ?]]; reflexivity.
  - destruct (includes [JStr "aws"; JStr "azure"] (body_candidate req)) eqn:E.
    + apply includes_valid in E. destruct (valid_candidate_string _ E) as (c & Hc & Hv).
      rewrite (castVote_valid_cases c req w Hc Hv), Hc.
      destruct (fault (next_outcome w)); cbv zeta.
      { cbn [snd]. erewrite issued_since_app by reflexivity.
        constructor; [left; split; reflexivity | constructor]. }
      destruct (js_or _ _).
      * destruct (fault (second_outcome w)); cbn [snd];
          (erewrite issued_since_app by (cbn [issued]; rewrite <- app_assoc; reflexivity));
          (constructor; [left; split; reflexivity|]);
          (constructor; [right; split; [reflexivity | eexists; reflexivity] | constructor]).
      * cbn [snd]. erewrite issued_since_app by reflexivity.
        constructor; [left; split; reflexivity | constructor].
    + unfold castVote. rewrite E. cbn [negb ret snd]. rewrite issued_since_refl. constructor.
Qed.

End WritePath.

(** ** The votes object *)

Lemma votes_init_obj : votes_init = votes_obj 0 0 0.
Proof. reflexivity. Qed.

Lemma votes_obj_set_aws a b t v : obj_set "aws" v (votes_obj a b t) = votes_obj v b t.
Proof. unfold obj_set, votes_obj. cbn. apply insert_insert_eq. Qed.

Lemma votes_obj_set_azure a b t v : obj_set "azure" v (votes_obj a b t) = votes_obj a v t.
Proof.
  unfold obj_set, votes_obj. cbn.
  rewrite (insert_insert_ne _ "azure" "aws") by discriminate.
  by rewrite insert_insert_eq.
Qed.

Lemma votes_obj_set_total a b t : set_total (votes_obj a b t) = votes_obj a b (a + b).
Proof.
  unfold set_total, votes_obj.
  rewrite lookup_total_insert_eq.
  rewrite (lookup_total_insert_ne _ "aws" "azure") by discriminate.
  rewrite lookup_total_insert_eq.
  rewrite (insert_insert_ne _ "total" "aws") by discriminate.
  rewrite (insert_insert_ne _ "total" "azure") by discriminate.
  by rewrite insert_insert_eq.
Qed.

Lemma votes_obj_total a b t : votes_obj a b t !!! "total" = t.
Proof.
  unfold votes_obj.
  rewrite !lookup_total_insert_ne by discriminate. apply lookup_total_insert_eq.
Qed.

Lemma votes_obj_candidate_sum a b t : candidate_sum (votes_obj a b t) = a + b.
Proof.
  unfold candidate_sum, votes_obj.
  rewrite !delete_insert_ne by discriminate.
  rewrite delete_insert_eq, delete_empty.
  rewrite map_fold_insert_L.
  - rewrite map_fold_insert_L.
    + rewrite map_fold_empty. lia.
    + intros. lia.
    + apply lookup_empty.
  - intros. lia.
  - rewrite lookup_insert_ne by discriminate. apply lookup_empty.
Qed.

(** Rows of the two candidates keep the object within its three properties. *)
Lemma record_rows_two_candidates rows :
  Forall (fun r => Tally.candidate r = "aws" \/ Tally.candidate r = "azure") rows ->
  forall a b t, exists a' b', record_rows rows (votes_obj a b t) = votes_obj a' b' t.
Proof.
  unfold record_rows. induction 1 as [|r rows [E|E] _ IH]; intros a b t; cbn [foldl].
  - eauto.
  - rewrite E, votes_obj_set_aws. apply IH.
  - rewrite E, votes_obj_set_azure. apply IH.
Qed.

Lemma set_total_lookup o :
  set_total o !!! "total" = set_total o !!! "aws" + set_total o !!! "azure".
Proof.
  unfold set_total.
  rewrite lookup_total_insert_eq.
  by rewrite !lookup_total_insert_ne by discriminate.
Qed.

Lemma group_count_candidates cs (P : string -> Prop) :
  Forall P cs -> Forall (fun r => P (Tally.candidate r)) (group_count cs).
Proof.
  intros H. unfold group_count. apply Forall_forall. intros r Hr.
  apply list_elem_of_fmap in Hr as (c & -> & Hc).
  rewrite elem_of_remove_dups in Hc. cbn.
  rewrite Forall_forall in H. by apply H.
Qed.

(** ** The audit tail *)

#[global] Instance id_desc_total : Total id_desc.
Proof. intros a b. unfold id_desc. lia. Qed.

#[global] Instance id_desc_trans : Transitive id_desc.
Proof. intros a b c. unfold id_desc. lia. Qed.

Lemma StronglySorted_take_prefix {A} (R : relation A) n (l : list A) :
  StronglySorted R l -> StronglySorted R (take n l).
Proof.
  intros H. rewrite <- (take_drop n l) in H.
  by apply StronglySorted_app_1_l in H.
Qed.

Lemma tail_length logs : (length (tail logs) <= TAIL_LIMIT)%nat.
Proof. unfold tail. rewrite length_take. lia. Qed.

Lemma tail_sorted logs : StronglySorted id_desc (tail logs).
Proof. unfold tail. apply StronglySorted_take_prefix, StronglySorted_merge_sort; apply _. Qed.

Lemma tail_subseteq logs : tail logs ⊆ logs.
Proof.
  unfold tail. intros x Hx. apply subseteq_take in Hx.
  by rewrite merge_sort_Permutation in Hx.
Qed.

Lemma StronglySorted_weaken {A} (R1 R2 : relation A) (l : list A) :
  (forall x y, x ∈ l -> y ∈ l -> R1 x y -> R2 x y) ->
  StronglySorted R1 l -> StronglySorted R2 l.
Proof.
  intros HR H. induction H as [|x l Hl IH Hx]; constructor.
  - apply IH. intros a b Ha Hb. apply HR; by right.
  - rewrite Forall_forall in *. intros y Hy.
    apply HR; [by left | by right | by apply Hx].
Qed.

(** ** The read path *)

Section ReadPath.

Variable POD_ID : string.

(** The live-data handler issues both statements, then answers by their
    outcomes. *)
Lemma liveData_cases w :
  liveData POD_ID w =
  let qs := (issued w ++ [mkQuery SQL_TALLY []; mkQuery SQL_TAIL []])%list in
  match fault (next_outcome w), fault (second_outcome w) with
  | None, None =>
      (inr (mkResponse 200
              (BLive POD_ID "healthy"
                 (set_total (record_rows (group_count (votes (store w))) votes_init))
                 (LogRows (tail (system_logs (store w)))))),
       mkWorld (store w) qs (console w) (oracle w))
  | Some e, None | None, Some e =>
      (inr RESP_DB_ERROR,
       mkWorld (store w) qs (console w ++ [[CStr "DB Error:"; CErr (ErrDb e)]]) (oracle w))
  | Some e1, Some e2 =>
      let e := if (latency (second_outcome w) <? latency (next_outcome w))%nat
               then e2 else e1 in
      (inr RESP_DB_ERROR,
       mkWorld (store w) qs (console w ++ [[CStr "DB Error:"; CErr (ErrDb e)]]) (oracle w))
  end.
Proof.
  unfold liveData, try_catch, bind, query, next_outcome, second_outcome.
  cbn [store issued console oracle].
  destruct (fault (oracle w (length (issued w)))) as [e1|] eqn:E1;
    [| rewrite exec_tally];
    cbn [store issued console oracle]; rewrite length_app, Nat.add_1_r;
    (destruct (fault (oracle w (S (length (issued w))))) as [e2|] eqn:E2;
     [| rewrite exec_tail ]);
    unfold Promise_all, await; cbn -[Nat.ltb tail group_count votes_init set_total];
    rewrite <- ?app_assoc; cbn [app]; try reflexivity.
  - destruct (Nat.ltb _ _); reflexivity.
Qed.

Lemma liveData_responds w : exists r, fst (liveData POD_ID w) = inr r.
Proof.
  rewrite liveData_cases. cbv zeta.
  destruct (fault (next_outcome w)), (fault (second_outcome w)); eauto.
Qed.

(** C4. The snapshot fails as a whole, with status 500 and body
    {error: "Database connectivity interruption"}, exactly when the tally
    statement or the audit-tail statement fails; the success payload is sent
    exactly when both succeed. *)
Theorem liveData_all_or_nothing w :
  (fault (next_outcome w) <> None \/ fault (second_outcome w) <> None <->
     fst (liveData POD_ID w) =
       inr (mkResponse 500 (BError "Database connectivity interruption")))
  /\ (fault (next_outcome w) = None /\ fault (second_outcome w) = None <->
      exists tally logs,
        fst (liveData POD_ID w) =
          inr (mkResponse 200 (BLive POD_ID "healthy" tally logs))).
Proof.
  rewrite liveData_cases. cbv zeta.
  destruct (fault (next_outcome w)) as [e1|], (fault (second_outcome w)) as [e2|];
    cbn [fst]; (split; split).
  all: try (intros _; reflexivity).
  all: try (intros _; left; discriminate).
  all: try (intros _; right; discriminate).
  all: try (intros [? ?]; discriminate).
  all: try (intros (? & ? & ?); discriminate).
  - intros [H|H]; congruence.
  - discriminate.
  - intros _. eauto.
  - intros _. split; reflexivity.
Qed.

(** C5 (amended). In every successful snapshot, the total of the votes object
    is the aws count plus the azure count; when every vote row is for aws or
    azure, that is the sum of the counts of every candidate in the object. *)
Theorem liveData_total_is_aws_plus_azure w tally logs :
  fst (liveData POD_ID w) = inr (mkResponse 200 (BLive POD_ID "healthy" tally logs)) ->
  tally !!! "total" = tally !!! "aws" + tally !!! "azure"
  /\ (Forall (fun c => c = "aws" \/ c = "azure") (votes (store w)) ->
      tally !!! "total" = candidate_sum tally).
Proof.
  rewrite liveData_cases. cbv zeta.
  destruct (fault (next_outcome w)), (fault (second_outcome w));
    cbn [fst]; try discriminate.
  intros [= <- _]. split; [apply set_total_lookup|].
  intros Hrows.
  destruct (record_rows_two_candidates _ (group_count_candidates _ _ Hrows) 0 0 0)
    as (a & b & E).
  rewrite votes_init_obj, E, votes_obj_set_total.
  by rewrite votes_obj_total, votes_obj_candidate_sum.
Qed.

(** C6 (amended). In every successful snapshot the logs are at most 50 rows,
    ordered by id, largest first; they are non-increasing in timestamp when
    the timestamps of the audit table grow with the id. *)
Theorem liveData_logs_bounded_newest_id_first w tally logs :
  fst (liveData POD_ID w) = inr (mkResponse 200 (BLive POD_ID "healthy" tally logs)) ->
  exists rows,
    logs = LogRows rows
    /\ (length rows <= 50)%nat
    /\ StronglySorted id_desc rows
    /\ ((forall a b, a ∈ system_logs (store w) -> b ∈ system_logs (store w) ->
           Log.id b <= Log.id a -> Log.created_at b <= Log.created_at a) ->
        StronglySorted created_at_desc rows).
Proof.
  rewrite liveData_cases. cbv zeta.
  destruct (fault (next_outcome w)), (fault (second_outcome w));
    cbn [fst]; try discriminate.
  intros [= _ <-]. eexists. split; [reflexivity|].
  split; [apply tail_length|]. split; [apply tail_sorted|].
  intros Hmono. apply (StronglySorted_weaken id_desc); [|apply tail_sorted].
  intros x y Hx Hy. apply Hmono; by apply tail_subseteq.
Qed.

(** C7. With no vote rows in the store and both statements succeeding, the
    read endpoint answers with status 200 and the votes object
    {aws: 0, azure: 0, total: 0}. *)
Theorem liveData_empty_tally w :
  votes (store w) = [] ->
  fault (next_outcome w) = None ->
  fault (second_outcome w) = None ->
  fst (liveData POD_ID w) =
    inr (mkResponse 200
           (BLive POD_ID "healthy"
                  {[ "aws" := 0; "azure" := 0; "total" := 0 ]}
                  (LogRows (tail (system_logs (store w)))))).
Proof.
  intros Hv H1 H2. rewrite liveData_cases, H1, H2, Hv. reflexivity.
Qed.

(** An acknowledged vote is in the store. *)
Lemma castVote_success_votes req w c :
  body_candidate req = JStr c ->
  fst (castVote POD_ID req w) = inr RESP_SUCCESS ->
  votes (store (snd (castVote POD_ID req w))) = (votes (store w) ++ [c])%list.
Proof.
  intros Hc.
  destruct (includes [JStr "aws"; JStr "azure"] (body_candidate req)) eqn:E.
  - apply includes_valid in E. rewrite Hc in E.
    rewrite (castVote_valid_cases POD_ID c req w Hc E).
    destruct (fault (next_outcome w)); [discriminate|]. cbv zeta.
    destruct (js_or _ _); [|discriminate].
    destruct (fault (second_outcome w)); reflexivity.
  - unfold castVote. rewrite E. discriminate.
Qed.

(** C8. From a store with no vote rows, three acknowledged votes for "aws"
    in a row, followed by a snapshot whose statements succeed, give the
    tally {aws: 3, azure: 0, total: 3}. *)
Theorem three_aws_votes_tally r1 r2 r3 w :
  votes (store w) = [] ->
  body_candidate r1 = JStr "aws" ->
  body_candidate r2 = JStr "aws" ->
  body_candidate r3 = JStr "aws" ->
  let w1 := snd (castVote POD_ID r1 w) in
  let w2 := snd (castVote POD_ID r2 w1) in
  let w3 := snd (castVote POD_ID r3 w2) in
  fst (castVote POD_ID r1 w) = inr (mkResponse 200 (BStatus "success" None)) ->
  fst (castVote POD_ID r2 w1) = inr (mkResponse 200 (BStatus "success" None)) ->
  fst (castVote POD_ID r3 w2) = inr (mkResponse 200 (BStatus "success" None)) ->
  fault (next_outcome w3) = None ->
  fault (second_outcome w3) = None ->
  exists logs,
    fst (liveData POD_ID w3) =
      inr (mkResponse 200
             (BLive POD_ID "healthy" {[ "aws" := 3; "azure" := 0; "total" := 3 ]} logs)).
Proof.
  intros Hv H1 H2 H3 w1 w2 w3 A1 A2 A3 F1 F2.
  pose proof (castVote_success_votes r1 w "aws" H1 A1) as E1.
  pose proof (castVote_success_votes r2 w1 "aws" H2 A2) as E2.
  pose proof (castVote_success_votes r3 w2 "aws" H3 A3) as E3.
  fold w1 in E1. fold w2 in E2. fold w3 in E3.
  rewrite E2, E1, Hv in E3. cbn [app] in E3.
  rewrite liveData_cases, F1, F2, E3. eexists. reflexivity.
Qed.

End ReadPath.

(** ** Concrete runs *)

Lemma castVote_invalid_candidate_witness :
  ~ valid_candidate (body_candidate req_gcp)
  /\ (castVote "pod-0" req_gcp world_empty =
        (inr (mkResponse 400 (BStatus "error" (Some "Invalid candidate"))), world_empty)
      /\ issued_since world_empty (snd (castVote "pod-0" req_gcp world_empty)) = []
      /\ store (snd (castVote "pod-0" req_gcp world_empty)) = store world_empty).
Proof.
  assert (H : ~ valid_candidate (body_candidate req_gcp))
    by (intros [H|H]; discriminate H).
  split; [exact H | exact (castVote_invalid_candidate "pod-0" req_gcp world_empty H)].
Defined.

Lemma castVote_persist_failure_witness :
  castVote "pod-0" req_aws world_vote_fails =
    (inr (mkResponse 500 (BStatus "error" (Some "Transaction failed"))),
     mkWorld (store world_vote_fails)
             [mkQuery SQL_INSERT_VOTE [JStr "aws"]]
             [[CStr "Transaction failed:"; CErr (ErrDb ECONNREFUSED)]]
             (oracle world_vote_fails))
  /\ Forall (fun q => sql q <> SQL_INSERT_LOG)
            (issued_since world_vote_fails (snd (castVote "pod-0" req_aws world_vote_fails))).
Proof.
  apply (castVote_persist_failure "pod-0" req_aws world_vote_fails ECONNREFUSED).
  - left. reflexivity.
  - reflexivity.
Defined.

Lemma castVote_undefined_origin_witness :
  castVote "pod-0" req_aws_no_origin world_empty =
    (inr (mkResponse 500 (BStatus "error" (Some "Transaction failed"))),
     mkWorld (mkStore ["aws"] [] 1700000000)
             [mkQuery SQL_INSERT_VOTE [JStr "aws"]]
             [[CStr "Transaction failed:";
               CErr (TypeError "Cannot read properties of undefined (reading 'split')")]]
             all_ok).
Proof.
  apply (castVote_undefined_origin "pod-0" req_aws_no_origin world_empty "aws");
    first [reflexivity | left; reflexivity].
Defined.

Lemma castVote_audit_outcome_ignored_witness :
  fst (castVote "pod-0" req_aws world_audit_fails) =
    inr (mkResponse 200 (BStatus "success" None))
  /\ console (snd (castVote "pod-0" req_aws world_audit_fails)) =
       [[CErr (ErrDb ECONNREFUSED)]]
  /\ fst (castVote "pod-0" req_aws (with_outcome 1 (mkOutcome None 1) world_audit_fails)) =
       fst (castVote "pod-0" req_aws world_audit_fails).
Proof.
  destruct (castVote_audit_outcome_ignored "pod-0" req_aws world_audit_fails
              (mkOutcome None 1)) as [Hsame Hfail].
  - left. reflexivity.
  - reflexivity.
  - destruct (Hfail ECONNREFUSED) as [Hack Hlog].
    + exists 1%nat,
        (mkQuery SQL_INSERT_LOG
           [JStr "VOTE_TX"; JStr "Vote confirmed for AWS via 203.0.113.9"; JStr "pod-0"]).
      split; [cbn; lia | repeat split; vm_compute; reflexivity].
    + split; [exact Hack | split; [exact Hlog | exact Hsame]].
Defined.

Lemma liveData_total_is_aws_plus_azure_witness :
  let tally : gmap string Z := {[ "aws" := 2; "azure" := 1; "total" := 3 ]} in
  fst (liveData "pod-0" world_mixed) =
    inr (mkResponse 200 (BLive "pod-0" "healthy" tally (LogRows [])))
  /\ tally !!! "total" = tally !!! "aws" + tally !!! "azure"
  /\ tally !!! "total" = candidate_sum tally.
Proof.
  intros tally.
  assert (H : fst (liveData "pod-0" world_mixed) =
              inr (mkResponse 200 (BLive "pod-0" "healthy" tally (LogRows []))))
    by (vm_compute; reflexivity).
  destruct (liveData_total_is_aws_plus_azure "pod-0" world_mixed tally (LogRows []) H)
    as [Hsum Hall].
  split; [exact H | split; [exact Hsum | apply Hall]].
  cbn. repeat (apply Forall_cons; split; [first [left; reflexivity | right; reflexivity]|]).
  apply Forall_nil_2.
Defined.

(** C5, as stated, fails: with a vote row for "gcp" in the store the snapshot
    carries aws: 1 and gcp: 1 and total: 1. *)
Lemma liveData_total_counterexample :
  exists tally logs,
    fst (liveData "pod-0" world_gcp) =
      inr (mkResponse 200 (BLive "pod-0" "healthy" tally logs))
    /\ tally !! "gcp" = Some 1
    /\ tally !!! "total" = 1
    /\ candidate_sum tally = 2
    /\ tally !!! "total" <> candidate_sum tally.
Proof.
  eexists _, _. split; [vm_compute; reflexivity|].
  repeat split; try (vm_compute; reflexivity).
  vm_compute. discriminate.
Qed.

Lemma liveData_logs_bounded_newest_id_first_witness :
  exists rows,
    fst (liveData "pod-0" world_logged) =
      inr (mkResponse 200 (BLive "pod-0" "healthy" votes_init (LogRows [log_third; log_second])))
    /\ LogRows [log_third; log_second] = LogRows rows
    /\ (length rows <= 50)%nat
    /\ StronglySorted id_desc rows
    /\ StronglySorted created_at_desc rows.
Proof.
  assert (H : fst (liveData "pod-0" world_logged) =
              inr (mkResponse 200
                     (BLive "pod-0" "healthy" votes_init (LogRows [log_third; log_second]))))
    by (vm_compute; reflexivity).
  destruct (liveData_logs_bounded_newest_id_first "pod-0" world_logged _ _ H)
    as (rows & Hrows & Hlen & Hid & Hts).
  exists rows. split; [exact H|]. split; [exact Hrows|].
  split; [exact Hlen|]. split; [exact Hid|]. apply Hts.
  intros a b Ha Hb.
  apply list_elem_of_In in Ha, Hb. cbn in Ha, Hb.
  destruct Ha as [<-|[<-|[]]], Hb as [<-|[<-|[]]]; cbn; lia.
Defined.

(** C6, as stated, fails: the tail is ordered by id, and here the row with the
    larger id has the earlier timestamp. *)
Lemma liveData_logs_timestamp_counterexample :
  exists tally rows,
    fst (liveData "pod-0" world_skewed) =
      inr (mkResponse 200 (BLive "pod-0" "healthy" tally (LogRows rows)))
    /\ rows = [log_second; log_first]
    /\ Log.created_at log_second < Log.created_at log_first
    /\ ~ StronglySorted created_at_desc rows.
Proof.
  eexists _, _. split; [vm_compute; reflexivity|].
  split; [reflexivity|]. split; [reflexivity|].
  intros H. apply StronglySorted_inv in H as [_ H].
  apply Forall_inv in H. unfold created_at_desc in H. cbn in H. lia.
Qed.

Lemma liveData_empty_tally_witness :
  fst (liveData "pod-0" world_empty) =
    inr (mkResponse 200
           (BLive "pod-0" "healthy"
                  {[ "aws" := 0; "azure" := 0; "total" := 0 ]}
                  (LogRows []))).
Proof.
  apply (liveData_empty_tally "pod-0" world_empty); reflexivity.
Defined.

Lemma three_aws_votes_tally_witness :
  exists logs,
    fst (liveData "pod-0"
           (snd (castVote "pod-0" req_aws
              (snd (castVote "pod-0" req_aws
                 (snd (castVote "pod-0" req_aws world_empty))))))) =
      inr (mkResponse 200
             (BLive "pod-0" "healthy" {[ "aws" := 3; "azure" := 0; "total" := 3 ]} logs)).
Proof.
  apply (three_aws_votes_tally "pod-0" req_aws req_aws req_aws world_empty);
    vm_compute; reflexivity.
Defined.

(** ** Further properties of the write path *)

Lemma js_or_none h a :
  js_or h a = None <-> (h = None \/ h = Some "") /\ a = None.
Proof.
  unfold js_or. destruct h as [s|].
  - destruct (String.eqb_spec s "") as [->|Hne].
    + split; [intros ->; auto | intros [_ ->]; reflexivity].
    + split; [discriminate | intros [[H|H] _]; congruence].
  - split; [intros ->; auto | intros [_ ->]; reflexivity].
Qed.

Section WriteEffects.

Variable POD_ID : string.

Ltac split_castVote req w c Hc Hv :=
  let E := fresh "E" in
  destruct (includes [JStr "aws"; JStr "azure"] (body_candidate req)) eqn:E;
  [ apply includes_valid in E;
    destruct (valid_candidate_string _ E) as (c & Hc & Hv);
    rewrite ?(castVote_valid_cases POD_ID c req w Hc Hv) in *
  | assert (Hv : ~ valid_candidate (body_candidate req))
      by (intros Hv%includes_valid; congruence);
    rewrite ?(castVote_rejects POD_ID req w Hv) in * ].


(** X2. An acknowledgement is sent only for a validated candidate whose vote
    row is in the store, and only after the audit insert has been issued: the
    statements of the request are the vote insert, then the audit insert. *)
Theorem castVote_ack_means_stored req w :
  fst (castVote POD_ID req w) = inr (mkResponse 200 (BStatus "success" None)) ->
  exists c ip,
    body_candidate req = JStr c
    /\ valid_candidate (JStr c)
    /\ js_or (x_forwarded_for req) (remoteAddress req) = Some ip
    /\ votes (store (snd (castVote POD_ID req w))) = (votes (store w) ++ [c])%list
    /\ issued_since w (snd (castVote POD_ID req w)) =
         [mkQuery SQL_INSERT_VOTE [JStr c];
          mkQuery SQL_INSERT_LOG [JStr "VOTE_TX"; JStr (audit_message c ip); JStr POD_ID]].
Proof.
  split_castVote req w c Hc Hv; [|discriminate].
  destruct (fault (next_outcome w)); [discriminate|]. cbv zeta.
  destruct (js_or _ _) as [ip|]; [|discriminate].
  intros _. exists c, ip. repeat (split; [done|]).
  destruct (fault (second_outcome w)); cbn [snd store votes];
    (split; [reflexivity|]);
    apply issued_since_app; cbn [issued]; by rewrite <- app_assoc.
Qed.

(** X3. Once the vote insert of a valid request has succeeded the row is in
    the store whatever the answer; the answer is the 500 failure exactly when
    the x-forwarded-for header is absent or empty and the socket has no remote
    address, and the acknowledgement otherwise. *)
Theorem castVote_stored_but_failed_iff_no_origin req w c :
  body_candidate req = JStr c ->
  valid_candidate (JStr c) ->
  fault (next_outcome w) = None ->
  votes (store (snd (castVote POD_ID req w))) = (votes (store w) ++ [c])%list
  /\ (fst (castVote POD_ID req w) =
        inr (mkResponse 500 (BStatus "error" (Some "Transaction failed")))
      <-> (x_forwarded_for req = None \/ x_forwarded_for req = Some "")
          /\ remoteAddress req = None)
  /\ (fst (castVote POD_ID req w) = inr (mkResponse 200 (BStatus "success" None))
      <-> ~ ((x_forwarded_for req = None \/ x_forwarded_for req = Some "")
             /\ remoteAddress req = None)).
Proof.
  intros Hc Hv Hf. rewrite (castVote_valid_cases POD_ID c req w Hc Hv), Hf. cbv zeta.
  rewrite <- js_or_none.
  destruct (js_or _ _) as [ip|].
  - destruct (fault (second_outcome w)); cbn [fst snd store votes];
      (split; [reflexivity|]); (split; split; try discriminate; try done).
  - cbn [fst snd store votes]. split; [reflexivity|].
    split; split; try done.
Qed.

(** What one vote request does to the store. *)
Lemma castVote_effect req w :
  exists vs ls,
    votes (store (snd (castVote POD_ID req w))) = (votes (store w) ++ vs)%list
    /\ system_logs (store (snd (castVote POD_ID req w))) = (system_logs (store w) ++ ls)%list
    /\ now (store (snd (castVote POD_ID req w))) = now (store w)
    /\ (length ls <= (if is_ack (fst (castVote POD_ID req w)) then 1 else 0))%nat
    /\ ((if is_ack (fst (castVote POD_ID req w)) then 1 else 0) <= length vs)%nat
    /\ (length vs <= 1)%nat
    /\ Forall (fun x => x = "aws" \/ x = "azure") vs
    /\ Forall (fun r => Log.event_type r = "VOTE_TX" /\ Log.pod_id r = POD_ID) ls.
Proof.
  split_castVote req w c Hc Hv.
  - assert (Hc' : c = "aws" \/ c = "azure")
      by (destruct Hv as [[= ->]|[= ->]]; auto).
    destruct (fault (next_outcome w)); cbv zeta.
    { exists [], []. rewrite !app_nil_r. cbn. repeat split; auto. }
    destruct (js_or _ _) as [ip|].
    + destruct (fault (second_outcome w)).
      * exists [c], []. rewrite !app_nil_r. cbn. repeat split; auto.
      * eexists [c], [_]. cbn. repeat split; auto.
    + exists [c], []. rewrite !app_nil_r. cbn. repeat split; auto.
  - exists [], []. rewrite !app_nil_r. cbn. repeat split; auto.
Qed.

(** X4. One vote request issues nothing, the vote insert alone, or the vote
    insert followed by the audit insert; it adds at most one vote row, and an
    audit row only together with a vote row. *)
Theorem castVote_at_most_one_row_each req w :
  (issued_since w (snd (castVote POD_ID req w)) = []
   \/ (exists c, issued_since w (snd (castVote POD_ID req w)) =
                   [mkQuery SQL_INSERT_VOTE [JStr c]])
   \/ (exists c msg, issued_since w (snd (castVote POD_ID req w)) =
                   [mkQuery SQL_INSERT_VOTE [JStr c];
                    mkQuery SQL_INSERT_LOG [JStr "VOTE_TX"; JStr msg; JStr POD_ID]]))
  /\ exists vs ls,
       votes (store (snd (castVote POD_ID req w))) = (votes (store w) ++ vs)%list
       /\ system_logs (store (snd (castVote POD_ID req w))) = (system_logs (store w) ++ ls)%list
       /\ (length ls <= length vs <= 1)%nat.
Proof.
  split.
  - split_castVote req w c Hc Hv.
    + destruct (fault (next_outcome w)); cbv zeta.
      { right; left. exists c. by apply issued_since_app. }
      destruct (js_or _ _) as [ip|].
      * right; right. exists c, (audit_message c ip).
        destruct (fault (second_outcome w)); apply issued_since_app;
          cbn [snd issued]; by rewrite <- app_assoc.
      * right; left. exists c. by apply issued_since_app.
    + left. apply issued_since_refl.
  - destruct (castVote_effect req w) as (vs & ls & Hv & Hl & _ & H1 & H2 & H3 & _).
    exists vs, ls. repeat split; try done. lia.
Qed.

(** X5. When the x-forwarded-for header is there and not empty, the audit row
    of an acknowledged vote names the text before the header's first comma,
    whatever the socket's remote address; it carries the event type VOTE_TX,
    the candidate in upper case and the id of the serving pod. *)
Theorem castVote_audit_row_from_header req w c h :
  body_candidate req = JStr c ->
  valid_candidate (JStr c) ->
  x_forwarded_for req = Some h ->
  h <> "" ->
  fault (next_outcome w) = None ->
  fault (second_outcome w) = None ->
  exists i,
    system_logs (store (snd (castVote POD_ID req w))) =
      (system_logs (store w) ++
         [Log.mk i "VOTE_TX"
                 ("Vote confirmed for " ++ toUpperCase c ++ " via " ++ split_comma_head h)
                 POD_ID (now (store w))])%list.
Proof.
  intros Hc Hv Hh Hne H1 H2.
  rewrite (castVote_valid_cases POD_ID c req w Hc Hv), H1. cbv zeta.
  unfold js_or. rewrite Hh.
  destruct (String.eqb_spec h ""); [done|]. rewrite H2.
  eexists. reflexivity.
Qed.

End WriteEffects.

(** X6. The origin written to the audit message never holds a comma: it is
    the part of the address chain before the first comma, and the chain itself
    when it has none. *)
Theorem split_comma_head_first_hop s :
  (exists rest, s = split_comma_head s ++ rest
                /\ (rest = "" \/ exists rest', rest = String "," rest'))
  /\ (forall n, String.get n (split_comma_head s) <> Some ","%char).
Proof.
  induction s as [|a s [(rest & Hrest & Htail) Hno]]; cbn [split_comma_head].
  - split; [exists ""; auto | intros n; destruct n; discriminate].
  - destruct (Ascii.eqb_spec a ",") as [->|Hne].
    + split; [exists (String "," s); eauto | intros n; destruct n; discriminate].
    + split.
      * exists rest. split; [|done].
        change (String a s = String a (split_comma_head s ++ rest)). by f_equal.
      * intros [|n]; cbn; [congruence | apply Hno].
Qed.

(** ** Further properties of the read path *)

Lemma record_rows_cons r rows o :
  record_rows (r :: rows) o =
  record_rows rows (obj_set (Tally.candidate r) (Tally.count r) o).
Proof. reflexivity. Qed.

Lemma record_rows_notin rows o j :
  j ∉ Tally.candidate <$> rows -> record_rows rows o !! j = o !! j.
Proof.
  revert o. induction rows as [|r rows IH]; intros o Hj; [reflexivity|].
  rewrite record_rows_cons. rewrite fmap_cons, not_elem_of_cons in Hj.
  destruct Hj as [Hne Hj]. rewrite (IH _ Hj). unfold obj_set.
  destruct (String.eqb _ _); [reflexivity|]. by rewrite lookup_insert_ne.
Qed.

Lemma record_rows_proto rows o :
  record_rows rows o !! "__proto__" = o !! "__proto__".
Proof.
  revert o. induction rows as [|r rows IH]; intros o; [reflexivity|].
  rewrite record_rows_cons, IH. unfold obj_set.
  destruct (String.eqb_spec (Tally.candidate r) "__proto__"); [reflexivity|].
  by rewrite lookup_insert_ne.
Qed.

Lemma record_rows_in rows o r :
  NoDup (Tally.candidate <$> rows) ->
  r ∈ rows ->
  Tally.candidate r <> "__proto__" ->
  record_rows rows o !! Tally.candidate r = Some (Tally.count r).
Proof.
  revert o. induction rows as [|r0 rows IH]; intros o Hnd Hr Hp.
  - by apply elem_of_nil in Hr.
  - rewrite fmap_cons in Hnd. apply NoDup_cons in Hnd as [Hfresh Hnd].
    rewrite record_rows_cons. apply elem_of_cons in Hr as [->|Hr].
    + rewrite (record_rows_notin _ _ _ Hfresh). unfold obj_set.
      destruct (String.eqb_spec (Tally.candidate r0) "__proto__"); [done|].
      apply lookup_insert_eq.
    + by apply IH.
Qed.

Lemma group_count_candidate_list cs :
  Tally.candidate <$> group_count cs = remove_dups cs.
Proof.
  unfold group_count. rewrite <- list_fmap_compose.
  rewrite <- (list_fmap_id (remove_dups cs)) at 2. reflexivity.
Qed.

Lemma count_votes_notin c cs : c ∉ cs -> count_votes c cs = 0.
Proof.
  unfold count_votes. induction cs as [|d cs IH]; intros H; [reflexivity|].
  apply not_elem_of_cons in H as [Hne Hn].
  rewrite filter_cons_False by congruence. by apply IH.
Qed.

Lemma count_votes_snoc c d cs :
  count_votes c (cs ++ [d]) = count_votes c cs + (if decide (d = c) then 1 else 0).
Proof.
  unfold count_votes. rewrite filter_app, length_app.
  rewrite filter_cons, filter_nil. destruct (decide (d = c)); cbn [length]; lia.
Qed.

(** The property the grouped rows leave under a key of the votes object. *)
Lemma tally_lookup cs o c :
  c <> "__proto__" ->
  record_rows (group_count cs) o !! c =
  if decide (c ∈ cs) then Some (count_votes c cs) else o !! c.
Proof.
  intros Hp. destruct (decide (c ∈ cs)) as [Hin|Hnin].
  - assert (Hr : Tally.mk c (count_votes c cs) ∈ group_count cs).
    { unfold group_count. apply list_elem_of_fmap.
      exists c. split; [reflexivity|]. by apply elem_of_remove_dups. }
    apply (record_rows_in _ o) in Hr; [exact Hr | | exact Hp].
    rewrite group_count_candidate_list. apply NoDup_remove_dups.
  - apply record_rows_notin. rewrite group_count_candidate_list.
    by rewrite elem_of_remove_dups.
Qed.

Lemma tally_lookup_init cs c :
  c = "aws" \/ c = "azure" ->
  record_rows (group_count cs) votes_init !! c = Some (count_votes c cs).
Proof.
  intros Hc. rewrite tally_lookup by (destruct Hc as [-> | ->]; discriminate).
  destruct (decide (c ∈ cs)) as [|Hn]; [reflexivity|].
  rewrite (count_votes_notin _ _ Hn). by destruct Hc as [-> | ->].
Qed.

Lemma snapshot_tally_lookup cs :
  let t := set_total (record_rows (group_count cs) votes_init) in
  t !! "aws" = Some (count_votes "aws" cs)
  /\ t !! "azure" = Some (count_votes "azure" cs)
  /\ t !! "total" = Some (count_votes "aws" cs + count_votes "azure" cs).
Proof.
  cbv zeta. unfold set_total.
  rewrite !lookup_insert_ne by discriminate. rewrite lookup_insert_eq.
  rewrite !lookup_total_alt, !tally_lookup_init by auto. done.
Qed.

Lemma count_votes_two_candidates cs :
  Forall (fun c => c = "aws" \/ c = "azure") cs ->
  count_votes "aws" cs + count_votes "azure" cs = Z.of_nat (length cs).
Proof.
  unfold count_votes. induction 1 as [|c cs [-> | ->] _ IH].
  - reflexivity.
  - rewrite filter_cons_True by done.
    rewrite (filter_cons_False _ "aws") by done. cbn [length]. lia.
  - rewrite (filter_cons_False _ "azure") by done.
    rewrite filter_cons_True by done. cbn [length]. lia.
Qed.



Section ReadEffects.

Variable POD_ID : string.

Lemma liveData_store w : store (snd (liveData POD_ID w)) = store w.
Proof.
  rewrite liveData_cases. cbv zeta.
  destruct (fault (next_outcome w)), (fault (second_outcome w)); reflexivity.
Qed.

Lemma liveData_success w tally logs :
  fst (liveData POD_ID w) = inr (mkResponse 200 (BLive POD_ID "healthy" tally logs)) ->
  tally = set_total (record_rows (group_count (votes (store w))) votes_init)
  /\ logs = LogRows (tail (system_logs (store w))).
Proof.
  rewrite liveData_cases. cbv zeta.
  destruct (fault (next_outcome w)), (fault (second_outcome w));
    cbn [fst]; try discriminate.
  intros [= <- <-]. done.
Qed.

(** X7. The live-data handler only reads: it always hands both statements to
    the pool, the tally first, even when the first one fails; it leaves the
    store as it was; and it writes to the console only when it answers 500,
    one line carrying the database error. *)
Theorem liveData_reads_only w :
  store (snd (liveData POD_ID w)) = store w
  /\ issued_since w (snd (liveData POD_ID w)) =
       [mkQuery SQL_TALLY []; mkQuery SQL_TAIL []]
  /\ ((exists tally logs,
         fst (liveData POD_ID w) =
           inr (mkResponse 200 (BLive POD_ID "healthy" tally logs))
         /\ console (snd (liveData POD_ID w)) = console w)
      \/ (exists e,
           fst (liveData POD_ID w) =
             inr (mkResponse 500 (BError "Database connectivity interruption"))
           /\ console (snd (liveData POD_ID w)) =
                (console w ++ [[CStr "DB Error:"; CErr (ErrDb e)]])%list)).
Proof.
  split; [apply liveData_store|].
  rewrite liveData_cases. cbv zeta.
  destruct (fault (next_outcome w)) as [e1|], (fault (second_outcome w)) as [e2|];
    (split; [by apply issued_since_app|]); cbn [fst snd console]; eauto.
Qed.

(** X8. Reading twice with nothing written in between gives the same payload:
    two successful snapshots in a row are equal. *)
Theorem liveData_twice_same w r1 r2 :
  fst (liveData POD_ID w) = inr r1 ->
  fst (liveData POD_ID (snd (liveData POD_ID w))) = inr r2 ->
  status r1 = 200 ->
  status r2 = 200 ->
  r1 = r2.
Proof.
  intros H1 H2.
  rewrite liveData_cases, liveData_store in H2. rewrite liveData_cases in H1.
  cbv zeta in H1, H2. revert H1 H2.
  destruct (fault (next_outcome w)), (fault (second_outcome w)),
    (fault (next_outcome _)), (fault (second_outcome _));
    cbn [fst]; intros [= <-] [= <-]; cbn [status]; try discriminate.
  reflexivity.
Qed.

(** X9. In a successful snapshot the aws count is the number of vote rows for
    "aws", the azure count the number of vote rows for "azure", and the total
    is the sum of the two, whatever else the vote table holds. *)
Theorem liveData_counts_vote_rows w tally logs :
  fst (liveData POD_ID w) = inr (mkResponse 200 (BLive POD_ID "healthy" tally logs)) ->
  tally !! "aws" = Some (count_votes "aws" (votes (store w)))
  /\ tally !! "azure" = Some (count_votes "azure" (votes (store w)))
  /\ tally !! "total" =
       Some (count_votes "aws" (votes (store w)) + count_votes "azure" (votes (store w))).
Proof.
  intros [-> _]%liveData_success. apply snapshot_tally_lookup.
Qed.

(** X10. A candidate other than aws and azure is a property of the votes
    object of a successful snapshot exactly when the vote table has a row for
    it, and then with its number of rows; the names total and __proto__ are
    never taken by a candidate. *)
Theorem liveData_other_candidates w tally logs c :
  fst (liveData POD_ID w) = inr (mkResponse 200 (BLive POD_ID "healthy" tally logs)) ->
  c <> "aws" -> c <> "azure" -> c <> "total" ->
  tally !! c =
    if decide (c ∈ votes (store w) /\ c <> "__proto__")
    then Some (count_votes c (votes (store w)))
    else None.
Proof.
  intros [-> _]%liveData_success Ha Hz Ht. unfold set_total.
  rewrite lookup_insert_ne by done.
  destruct (decide (c = "__proto__")) as [->|Hp].
  - rewrite record_rows_proto. by rewrite decide_False by (intros [_ H]; done).
  - rewrite tally_lookup by done.
    destruct (decide (c ∈ votes (store w))) as [Hin|Hnin].
    + by rewrite decide_True.
    + rewrite decide_False by (intros [H _]; done).
      unfold votes_init. by rewrite !lookup_insert_ne, lookup_empty.
Qed.

(** X11. A snapshot that follows an acknowledged vote for a candidate shows
    that candidate's count, and the total, one above the number of rows the
    vote table held before the vote. *)
Theorem vote_then_snapshot req w c tally logs :
  body_candidate req = JStr c ->
  fst (castVote POD_ID req w) = inr (mkResponse 200 (BStatus "success" None)) ->
  fst (liveData POD_ID (snd (castVote POD_ID req w))) =
    inr (mkResponse 200 (BLive POD_ID "healthy" tally logs)) ->
  tally !! c = Some (count_votes c (votes (store w)) + 1)
  /\ tally !! "total" =
       Some (count_votes "aws" (votes (store w)) + count_votes "azure" (votes (store w)) + 1).
Proof.
  intros Hc Hack Hlive.
  pose proof (castVote_success_votes POD_ID req w c Hc Hack) as Hv.
  apply liveData_success in Hlive as [-> _]. rewrite Hv.
  destruct (snapshot_tally_lookup (votes (store w) ++ [c])) as (Ha & Hz & Ht).
  rewrite Ht, !count_votes_snoc.
  assert (Hvalid : c = "aws" \/ c = "azure").
  { destruct (includes [JStr "aws"; JStr "azure"] (body_candidate req)) eqn:E.
    - apply includes_valid in E. rewrite Hc in E. destruct E as [[= ->]|[= ->]]; auto.
    - assert (Hn : ~ valid_candidate (body_candidate req))
        by (intros Hn%includes_valid; congruence).
      rewrite (castVote_rejects POD_ID req w Hn) in Hack. discriminate. }
  destruct Hvalid as [-> | ->].
  - rewrite Ha, count_votes_snoc. rewrite !decide_True by done.
    rewrite decide_False by done. split; f_equal; lia.
  - rewrite Hz, count_votes_snoc. rewrite !decide_True by done.
    rewrite decide_False by done. split; f_equal; lia.
Qed.

End ReadEffects.

(** ** The audit window of a snapshot *)

Section AuditWindow.

Variable POD_ID : string.

(** X12. The logs of a successful snapshot are the rows of the audit table
    with the largest ids: as many as the table has, up to 50, every one a row
    of the table, and no row left out has a larger id than a row returned.  A
    table of at most 50 rows is returned whole. *)
Theorem liveData_logs_are_top_ids w tally rows :
  fst (liveData POD_ID w) =
    inr (mkResponse 200 (BLive POD_ID "healthy" tally (LogRows rows))) ->
  length rows = (50 `min` length (system_logs (store w)))%nat
  /\ (exists older,
        (rows ++ older)%list ≡ₚ system_logs (store w)
        /\ forall r o, r ∈ rows -> o ∈ older -> Log.id o <= Log.id r)
  /\ ((length (system_logs (store w)) <= 50)%nat -> rows ≡ₚ system_logs (store w)).
Proof.
  intros [_ [= ->]]%liveData_success. unfold tail, TAIL_LIMIT.
  pose proof (merge_sort_Permutation id_desc (system_logs (store w))) as Hperm.
  pose proof (StronglySorted_merge_sort id_desc (system_logs (store w))) as Hsorted.
  split; [by rewrite length_take, Hperm|]. split.
  - exists (drop 50 (merge_sort id_desc (system_logs (store w)))).
    rewrite take_drop. split; [exact Hperm|].
    intros r o Hr Ho. rewrite <- (take_drop 50) in Hsorted.
    exact (StronglySorted_app_1_elem_of _ _ _ _ _ Hsorted Hr Ho).
  - intros Hle. rewrite take_ge by (by rewrite Hperm). exact Hperm.
Qed.


End AuditWindow.

(** ** A process serving a sequence of requests *)

Lemma acks_cons r rs : acks (r :: rs) = ((if is_ack r then 1 else 0) + acks rs)%nat.
Proof.
  unfold acks. rewrite filter_cons.
  destruct (decide (is_ack r = true)) as [->|H]; [reflexivity|].
  by destruct (is_ack r).
Qed.

Section Runs.

Variable POD_ID : string.

Lemma serve_cons c rest w :
  serve POD_ID (c :: rest) w =
  (fst (handle POD_ID c w) :: fst (serve POD_ID rest (snd (handle POD_ID c w))),
   snd (serve POD_ID rest (snd (handle POD_ID c w)))).
Proof.
  change (serve POD_ID (c :: rest) w)
    with (let (r, w1) := handle POD_ID c w in
          let (rs, w2) := serve POD_ID rest w1 in (r :: rs, w2)).
  destruct (handle POD_ID c w) as [r w1]. cbn [fst snd].
  by destruct (serve POD_ID rest w1).
Qed.

Lemma liveData_not_ack w : is_ack (fst (liveData POD_ID w)) = false.
Proof.
  rewrite liveData_cases. cbv zeta.
  destruct (fault (next_outcome w)), (fault (second_outcome w)); reflexivity.
Qed.

(** What one request does to the store. *)
Lemma handle_effect c w :
  exists vs ls,
    votes (store (snd (handle POD_ID c w))) = (votes (store w) ++ vs)%list
    /\ system_logs (store (snd (handle POD_ID c w))) = (system_logs (store w) ++ ls)%list
    /\ (length ls <= (if is_ack (fst (handle POD_ID c w)) then 1 else 0))%nat
    /\ ((if is_ack (fst (handle POD_ID c w)) then 1 else 0) <= length vs)%nat
    /\ Forall (fun x => x = "aws" \/ x = "azure") vs
    /\ Forall (fun r => Log.event_type r = "VOTE_TX" /\ Log.pod_id r = POD_ID) ls.
Proof.
  destruct c as [req|]; cbn [handle].
  - destruct (castVote_effect POD_ID req w) as (vs & ls & ? & ? & ? & ? & ? & ? & ? & ?).
    exists vs, ls. done.
  - exists [], []. rewrite liveData_store, liveData_not_ack, !app_nil_r. cbn.
    repeat split; auto.
Qed.

(** What a sequence of requests does to the store. *)
Lemma serve_effect calls w :
  exists vs ls,
    votes (store (snd (serve POD_ID calls w))) = (votes (store w) ++ vs)%list
    /\ system_logs (store (snd (serve POD_ID calls w))) = (system_logs (store w) ++ ls)%list
    /\ (length ls <= acks (fst (serve POD_ID calls w)))%nat
    /\ (acks (fst (serve POD_ID calls w)) <= length vs)%nat
    /\ Forall (fun x => x = "aws" \/ x = "azure") vs
    /\ Forall (fun r => Log.event_type r = "VOTE_TX" /\ Log.pod_id r = POD_ID) ls.
Proof.
  revert w. induction calls as [|c calls IH]; intros w.
  - exists [], []. rewrite !app_nil_r. cbn. repeat split; auto.
  - rewrite serve_cons. cbn [fst snd]. rewrite acks_cons.
    destruct (handle_effect c w) as (vs1 & ls1 & Hv1 & Hl1 & Ha1 & Hb1 & Hf1 & Hg1).
    destruct (IH (snd (handle POD_ID c w))) as (vs2 & ls2 & Hv2 & Hl2 & Ha2 & Hb2 & Hf2 & Hg2).
    exists (vs1 ++ vs2)%list, (ls1 ++ ls2)%list.
    rewrite Hv2, Hv1, Hl2, Hl1, <- !app_assoc, !length_app.
    repeat split; try done; try lia; by apply Forall_app.
Qed.

(** X14. Serving requests only ever appends to the two tables: the rows that
    were there stay, in place; every vote row added is for aws or azure; every
    audit row added has event type VOTE_TX and the id of the serving pod. *)
Theorem serve_appends_only calls w :
  exists vs ls,
    votes (store (snd (serve POD_ID calls w))) = (votes (store w) ++ vs)%list
    /\ system_logs (store (snd (serve POD_ID calls w))) = (system_logs (store w) ++ ls)%list
    /\ Forall (fun x => x = "aws" \/ x = "azure") vs
    /\ Forall (fun r => Log.event_type r = "VOTE_TX" /\ Log.pod_id r = POD_ID) ls.
Proof.
  destruct (serve_effect calls w) as (vs & ls & ? & ? & _ & _ & ? & ?).
  exists vs, ls. done.
Qed.

(** X15. Over any sequence of requests, no acknowledged vote is missing from
    the vote table and no audit row is without an acknowledged vote: the audit
    rows added are at most the acknowledgements sent, which are at most the
    vote rows added. *)
Theorem serve_audit_le_acks_le_votes calls w :
  (length (system_logs (store (snd (serve POD_ID calls w))))
     <= length (system_logs (store w)) + acks (fst (serve POD_ID calls w)))%nat
  /\ (length (votes (store w)) + acks (fst (serve POD_ID calls w))
      <= length (votes (store (snd (serve POD_ID calls w)))))%nat.
Proof.
  destruct (serve_effect calls w) as (vs & ls & -> & -> & ? & ? & _ & _).
  rewrite !length_app. lia.
Qed.

(** X16. A vote table that holds only aws and azure rows still does after any
    sequence of requests, and a successful snapshot then has a total equal to
    the number of vote rows, which is the sum of the counts of every candidate
    in the votes object. *)
Theorem serve_then_snapshot_total calls w tally logs :
  Forall (fun x => x = "aws" \/ x = "azure") (votes (store w)) ->
  fst (liveData POD_ID (snd (serve POD_ID calls w))) =
    inr (mkResponse 200 (BLive POD_ID "healthy" tally logs)) ->
  Forall (fun x => x = "aws" \/ x = "azure") (votes (store (snd (serve POD_ID calls w))))
  /\ tally !! "total" = Some (Z.of_nat (length (votes (store (snd (serve POD_ID calls w))))))
  /\ candidate_sum tally = Z.of_nat (length (votes (store (snd (serve POD_ID calls w))))).
Proof.
  intros Hw [-> _]%liveData_success.
  destruct (serve_effect calls w) as (vs & ls & Hv & _ & _ & _ & Hvs & _).
  assert (Hall : Forall (fun x => x = "aws" \/ x = "azure")
                        (votes (store (snd (serve POD_ID calls w)))))
    by (rewrite Hv; by apply Forall_app).
  split; [exact Hall|].
  destruct (snapshot_tally_lookup (votes (store (snd (serve POD_ID calls w)))))
    as (_ & _ & Ht).
  rewrite Ht, (count_votes_two_candidates _ Hall). split; [reflexivity|].
  destruct (record_rows_two_candidates _ (group_count_candidates _ _ Hall) 0 0 0)
    as (a & b & E).
  rewrite votes_init_obj, E, votes_obj_set_total in Ht |- *.
  rewrite votes_obj_candidate_sum.
  assert (Hlk : votes_obj a b (a + b) !! "total" = Some (a + b)).
  { unfold votes_obj. rewrite !lookup_insert_ne by discriminate. apply lookup_insert_eq. }
  rewrite Hlk in Ht. rewrite <- (count_votes_two_candidates _ Hall). congruence.
Qed.

(** X17. A click on a vote button of the dashboard never meets the 400
    rejection; the dashboard reports "Transaction Committed" and refreshes
    exactly when the vote insert succeeded and the request had an origin, and
    then the vote row is in the store; in every other case it reports
    "Connection Error". *)
Theorem button_vote_report c forwarded remote w :
  c = "aws" \/ c = "azure" ->
  fst (castVote POD_ID (mkRequest (JStr c) forwarded remote) w) <>
    inr (mkResponse 400 (BStatus "error" (Some "Invalid candidate")))
  /\ (fst (button_vote POD_ID c forwarded remote w) =
        ("Transaction Committed", "var(--success)", true)
      \/ fst (button_vote POD_ID c forwarded remote w) =
        ("Connection Error", "var(--danger)", false))
  /\ (fst (button_vote POD_ID c forwarded remote w) =
        ("Transaction Committed", "var(--success)", true)
      <-> fault (next_outcome w) = None /\ js_or forwarded remote <> None)
  /\ (fst (button_vote POD_ID c forwarded remote w) =
        ("Transaction Committed", "var(--success)", true) ->
      votes (store (snd (button_vote POD_ID c forwarded remote w))) =
        (votes (store w) ++ [c])%list).
Proof.
  intros Hc.
  assert (Hv : valid_candidate (JStr c)) by (destruct Hc as [-> | ->]; [left|right]; done).
  unfold button_vote.
  rewrite (castVote_valid_cases POD_ID c (mkRequest (JStr c) forwarded remote) w eq_refl Hv).
  cbn [x_forwarded_for remoteAddress]. cbv zeta.
  destruct (fault (next_outcome w)) as [e|].
  { cbn. repeat split; try discriminate; auto. by intros [? _]. }
  destruct (js_or forwarded remote) as [ip|].
  - destruct (fault (second_outcome w)); cbn; repeat split; try discriminate; auto.
  - cbn. repeat split; try discriminate; auto. by intros [_ ?].
Qed.

End Runs.

(** ** Concrete runs of the further properties *)

Lemma castVote_ack_means_stored_witness :
  exists c ip,
    body_candidate req_aws = JStr c
    /\ valid_candidate (JStr c)
    /\ js_or (x_forwarded_for req_aws) (remoteAddress req_aws) = Some ip
    /\ votes (store (snd (castVote "pod-0" req_aws world_mixed))) =
         (votes (store world_mixed) ++ [c])%list
    /\ issued_since world_mixed (snd (castVote "pod-0" req_aws world_mixed)) =
         [mkQuery SQL_INSERT_VOTE [JStr c];
          mkQuery SQL_INSERT_LOG [JStr "VOTE_TX"; JStr (audit_message c ip); JStr "pod-0"]].
Proof.
  apply (castVote_ack_means_stored "pod-0" req_aws world_mixed).
  vm_compute. reflexivity.
Defined.

Lemma castVote_stored_but_failed_iff_no_origin_witness :
  votes (store (snd (castVote "pod-0" req_aws_empty_header world_empty))) = ["aws"]
  /\ fst (castVote "pod-0" req_aws_empty_header world_empty) =
       inr (mkResponse 500 (BStatus "error" (Some "Transaction failed"))).
Proof.
  destruct (castVote_stored_but_failed_iff_no_origin
              "pod-0" req_aws_empty_header world_empty "aws")
    as (Hstored & Hfail & _).
  - reflexivity.
  - left. reflexivity.
  - reflexivity.
  - split; [exact Hstored|]. apply Hfail. split; [right|]; reflexivity.
Defined.

Lemma castVote_audit_row_from_header_witness :
  exists i,
    system_logs (store (snd (castVote "pod-0" req_aws world_empty))) =
      [Log.mk i "VOTE_TX"
              ("Vote confirmed for " ++ toUpperCase "aws" ++ " via "
                 ++ split_comma_head "203.0.113.9, 10.0.0.1")
              "pod-0" 1700000000].
Proof.
  apply (castVote_audit_row_from_header
           "pod-0" req_aws world_empty "aws" "203.0.113.9, 10.0.0.1");
    first [reflexivity | discriminate | left; reflexivity].
Defined.

Lemma liveData_twice_same_witness :
  let r : Response :=
    mkResponse 200
      (BLive "pod-0" "healthy" {[ "aws" := 2; "azure" := 1; "total" := 3 ]} (LogRows [])) in
  fst (liveData "pod-0" world_mixed) = inr r
  /\ fst (liveData "pod-0" (snd (liveData "pod-0" world_mixed))) = inr r
  /\ r = r.
Proof.
  intros r.
  assert (H1 : fst (liveData "pod-0" world_mixed) = inr r) by (vm_compute; reflexivity).
  assert (H2 : fst (liveData "pod-0" (snd (liveData "pod-0" world_mixed))) = inr r)
    by (vm_compute; reflexivity).
  split; [exact H1 | split; [exact H2|]].
  exact (liveData_twice_same "pod-0" world_mixed r r H1 H2 eq_refl eq_refl).
Defined.

Lemma liveData_counts_vote_rows_witness :
  let tally : gmap string Z := {[ "aws" := 2; "azure" := 1; "total" := 3 ]} in
  tally !! "aws" = Some (count_votes "aws" ["aws"; "azure"; "aws"])
  /\ tally !! "azure" = Some (count_votes "azure" ["aws"; "azure"; "aws"])
  /\ tally !! "total" =
       Some (count_votes "aws" ["aws"; "azure"; "aws"]
             + count_votes "azure" ["aws"; "azure"; "aws"]).
Proof.
  intros tally.
  apply (liveData_counts_vote_rows "pod-0" world_mixed tally (LogRows [])).
  vm_compute. reflexivity.
Defined.

Lemma liveData_other_candidates_witness :
  let tally : gmap string Z :=
    <["gcp" := 1]> {[ "aws" := 1; "azure" := 0; "total" := 1 ]} in
  fst (liveData "pod-0" world_gcp) =
    inr (mkResponse 200 (BLive "pod-0" "healthy" tally (LogRows [])))
  /\ tally !! "gcp" = Some (count_votes "gcp" ["aws"; "gcp"]).
Proof.
  intros tally.
  assert (H : fst (liveData "pod-0" world_gcp) =
              inr (mkResponse 200 (BLive "pod-0" "healthy" tally (LogRows []))))
    by (vm_compute; reflexivity).
  split; [exact H|].
  exact (liveData_other_candidates "pod-0" world_gcp tally (LogRows []) "gcp" H
           ltac:(discriminate) ltac:(discriminate) ltac:(discriminate)).
Defined.

Lemma vote_then_snapshot_witness :
  let tally : gmap string Z := {[ "aws" := 3; "azure" := 1; "total" := 4 ]} in
  fst (liveData "pod-0" (snd (castVote "pod-0" req_aws world_mixed))) =
    inr (mkResponse 200 (BLive "pod-0" "healthy" tally (LogRows [log_req_aws])))
  /\ tally !! "aws" = Some (count_votes "aws" ["aws"; "azure"; "aws"] + 1)
  /\ tally !! "total" =
       Some (count_votes "aws" ["aws"; "azure"; "aws"]
             + count_votes "azure" ["aws"; "azure"; "aws"] + 1).
Proof.
  intros tally.
  assert (H : fst (liveData "pod-0" (snd (castVote "pod-0" req_aws world_mixed))) =
              inr (mkResponse 200 (BLive "pod-0" "healthy" tally (LogRows [log_req_aws]))))
    by (vm_compute; reflexivity).
  split; [exact H|].
  apply (vote_then_snapshot "pod-0" req_aws world_mixed "aws" tally (LogRows [log_req_aws]));
    [reflexivity | vm_compute; reflexivity | exact H].
Defined.

Lemma liveData_logs_are_top_ids_witness :
  length [log_third; log_second] = (50 `min` length (system_logs (store world_logged)))%nat
  /\ (exists older,
        ([log_third; log_second] ++ older)%list ≡ₚ system_logs (store world_logged)
        /\ forall r o, r ∈ [log_third; log_second] -> o ∈ older -> Log.id o <= Log.id r)
  /\ [log_third; log_second] ≡ₚ system_logs (store world_logged).
Proof.
  destruct (liveData_logs_are_top_ids "pod-0" world_logged votes_init
              [log_third; log_second]) as (Hlen & Holder & Hall).
  - vm_compute. reflexivity.
  - split; [exact Hlen | split; [exact Holder|]]. apply Hall. cbn. lia.
Defined.


Lemma serve_then_snapshot_total_witness :
  let w' := snd (serve "pod-0" sample_calls world_empty) in
  let tally : gmap string Z := {[ "aws" := 2; "azure" := 1; "total" := 3 ]} in
  votes (store w') = ["aws"; "azure"; "aws"]
  /\ acks (fst (serve "pod-0" sample_calls world_empty)) = 2%nat
  /\ Forall (fun x => x = "aws" \/ x = "azure") (votes (store w'))
  /\ tally !! "total" = Some (Z.of_nat (length (votes (store w'))))
  /\ candidate_sum tally = Z.of_nat (length (votes (store w'))).
Proof.
  intros w' tally.
  split; [vm_compute; reflexivity|]. split; [vm_compute; reflexivity|].
  apply (serve_then_snapshot_total "pod-0" sample_calls world_empty tally
           (LogRows (tail (system_logs (store w'))))).
  - apply Forall_nil_2.
  - vm_compute. reflexivity.
Defined.

Lemma button_vote_report_witness :
  fst (button_vote "pod-0" "azure" None (Some "::ffff:10.0.0.7") world_mixed) =
    ("Transaction Committed", "var(--success)", true)
  /\ votes (store (snd (button_vote "pod-0" "azure" None (Some "::ffff:10.0.0.7") world_mixed))) =
       ["aws"; "azure"; "aws"; "azure"].
Proof.
  destruct (button_vote_report "pod-0" "azure" None (Some "::ffff:10.0.0.7") world_mixed)
    as (_ & _ & Hiff & Hstored).
  - right. reflexivity.
  - assert (H : fst (button_vote "pod-0" "azure" None (Some "::ffff:10.0.0.7") world_mixed) =
                ("Transaction Committed", "var(--success)", true)).
    { apply Hiff. split; [reflexivity | discriminate]. }
    split; [exact H | exact (Hstored H)].
Defined.
